(** * HeroService: an in-memory hero store

    A shallow embedding of [src/app/domain/models/hero.model.ts] and
    [src/app/infrastructure/services/hero.service.ts], and the properties of
    the store that the specification states.

    Modelling choices.
    - A JavaScript string is a [string]: a sequence of code units, here the
      code units 0..255 (Latin-1).  [toLowerCase], [trim], [includes] and
      [slice] are written out on that range.
    - A value held by a property is a [JsValue]: [undefined], [null], a
      boolean, an integer number, a string or a [Date] (its time value, the
      milliseconds since the epoch).  Other objects are not values of the
      model.
    - A hero of the collection is the object as it is at run time: each of
      its four properties holds a [JsValue], whatever the interface [Hero]
      declares, and [others] holds the properties under any other name.
    - The patch of [update] is the object as it is at run time too: each
      property is absent ([None]) or present with a value, [undefined]
      included, and the patch may carry [id], [createdAt] and properties
      under other names, as the open interface [UpdateHeroDto] admits.
    - [create] reads its request by field ([dto.name], [dto.description]), so
      a request is the two declared fields.
    - The private signal [heroesSignal] is the state of a small state monad;
      every method of the service is a computation in it.
    - An [Observable] is the single notification it delivers: a value
      ([of(v)], written [of_ v]) or an error ([throwError]).  The [delay]
      operator only defers the delivery and is not modelled.  A call that
      throws instead of returning is a [throwTypeError] completion.
    - [Date.now()], [Math.random().toString(36)] and [new Date()] are read
      from the host; the three readings of one [create] call are its [Host]
      argument. *)

From Stdlib Require Import ZArith List Bool Ascii String Lia.
From Stdlib Require Import Numbers.DecimalString Numbers.DecimalPos Numbers.DecimalZ.
Import ListNotations.

Local Open Scope string_scope.
Local Open Scope list_scope.

(* ================================================================== *)
(** ** String primitives of the host language *)

Module JsString.

(** Code units that [String.prototype.trim] strips: TAB, LF, VT, FF, CR,
    SPACE and NO-BREAK SPACE. *)
Definition isWhiteSpace (c : ascii) : bool :=
  let n := nat_of_ascii c in
  (((9 <=? n) && (n <=? 13)) || (n =? 32) || (n =? 160))%nat.

(** Code units with a lower-case partner 32 places up: A-Z, and the Latin-1
    capitals U+00C0..U+00DE without the multiplication sign U+00D7. *)
Definition isUpper (c : ascii) : bool :=
  let n := nat_of_ascii c in
  (((65 <=? n) && (n <=? 90)) ||
   ((192 <=? n) && (n <=? 222) && negb (n =? 215)))%nat.

Definition lowerChar (c : ascii) : ascii :=
  if isUpper c then ascii_of_nat (nat_of_ascii c + 32) else c.

Fixpoint toLowerCase (s : string) : string :=
  match s with
  | EmptyString => EmptyString
  | String c s' => String (lowerChar c) (toLowerCase s')
  end.

Fixpoint trimStart (s : string) : string :=
  match s with
  | EmptyString => EmptyString
  | String c s' => if isWhiteSpace c then trimStart s' else s
  end.

Fixpoint trimEnd (s : string) : string :=
  match s with
  | EmptyString => EmptyString
  | String c s' =>
      match trimEnd s' with
      | EmptyString => if isWhiteSpace c then EmptyString else String c EmptyString
      | r => String c r
      end
  end.

Definition trim (s : string) : string := trimEnd (trimStart s).

(** [s.includes(t)]: [t] occurs in [s] at some position. *)
Fixpoint includes (s t : string) : bool :=
  prefix t s ||
  match s with
  | EmptyString => false
  | String _ s' => includes s' t
  end.

(** [s.slice(b, e)] for non-negative [b] and [e]. *)
Definition slice (b e : nat) (s : string) : string := substring b (e - b) s.

(** [!s] on a string: true exactly on the empty string. *)
Definition falsy (s : string) : bool :=
  match s with
  | EmptyString => true
  | String _ _ => false
  end.

(** [String(n)] (a template literal's conversion) of an integer. *)
Definition ofInt (n : Z) : string := NilZero.string_of_int (Z.to_int n).

(** What "contains as a substring" means. *)
Definition Substring (t s : string) : Prop := exists a b, s = (a ++ t ++ b)%string.

End JsString.

(* ================================================================== *)
(** ** Dates *)

Module JsDate.

Local Open Scope Z_scope.

(** Days from 1970-01-01 to the civil date [y]-[m]-[d]. *)
Definition daysFromCivil (y m d : Z) : Z :=
  let y' := if m <=? 2 then y - 1 else y in
  let era := y' / 400 in
  let yoe := y' - era * 400 in
  let mp := (m + 9) mod 12 in
  let doy := (153 * mp + 2) / 5 + d - 1 in
  let doe := yoe * 365 + yoe / 4 - yoe / 100 + doy in
  era * 146097 + doe - 719468.

Definition msPerDay : Z := 86400000.

(** [new Date('YYYY-MM-DD')]: a date-only form is midnight UTC. *)
Definition ofYMD (y m d : Z) : Z := daysFromCivil y m d * msPerDay.

End JsDate.

(* ================================================================== *)
(** ** Values *)

Inductive JsValue : Type :=
| VUndefined
| VNull
| VBoolean (b : bool)
| VNumber (n : Z)
| VString (s : string)
| VDate (time : Z).

(** [v === s] for a string [s]: true exactly when [v] is that string. *)
Definition strictEquals (v : JsValue) (s : string) : bool :=
  match v with
  | VString x => (x =? s)%string
  | _ => false
  end.

(** What reading an optional string field gives: the string or [undefined]. *)
Definition ofOptional (o : option string) : JsValue :=
  match o with
  | Some s => VString s
  | None => VUndefined
  end.

(** The result of an expression that may throw a [TypeError]. *)
Inductive Completion (A : Type) : Type :=
| normal (value : A)
| throwTypeError.

Arguments normal {A} value.
Arguments throwTypeError {A}.

(* ================================================================== *)
(** ** Domain model (hero.model.ts) *)

(** A hero object.  [others] lists the properties under names other than
    the four, the most recently assigned first; the value of such a property
    is the first one listed under its name. *)
Record Hero : Type := mkHero
  { id : JsValue;
    name : JsValue;
    description : JsValue;
    createdAt : JsValue;
    others : list (string * JsValue) }.

Record CreateHeroDto : Type := mkCreateHeroDto
  { c_name : string;
    c_description : option string }.

(** The own properties of a patch: [None] is a property that is absent,
    [Some v] one that is present with the value [v]. *)
Record UpdateHeroDto : Type := mkUpdateHeroDto
  { u_name : option JsValue;
    u_description : option JsValue;
    u_id : option JsValue;
    u_createdAt : option JsValue;
    u_others : list (string * JsValue) }.

(** The value of a property after the properties of a patch are copied over
    it. *)
Definition overwrite (patch : option JsValue) (old : JsValue) : JsValue :=
  match patch with
  | Some v => v
  | None => old
  end.

(** [{ ...hero, ...dto }]: every own property of [dto] is copied over the
    properties of [hero]. *)
Definition spread (hero : Hero) (dto : UpdateHeroDto) : Hero :=
  {| id := overwrite (u_id dto) (id hero);
     name := overwrite (u_name dto) (name hero);
     description := overwrite (u_description dto) (description hero);
     createdAt := overwrite (u_createdAt dto) (createdAt hero);
     others := u_others dto ++ others hero |}.

(* ================================================================== *)
(** ** Observables and the signal *)

Inductive Observable (A : Type) : Type :=
| of_ (value : A)
| throwError (message : string).

Arguments of_ {A} value.
Arguments throwError {A} message.

(** A computation over the value held by [heroesSignal]. *)
Definition Signal (A : Type) : Type := list Hero -> A * list Hero.

Definition ret {A} (a : A) : Signal A := fun heroes => (a, heroes).

Definition bind {A B} (m : Signal A) (k : A -> Signal B) : Signal B :=
  fun heroes => let (a, heroes') := m heroes in k a heroes'.

(** [this.heroesSignal()] *)
Definition heroesSignal : Signal (list Hero) := fun heroes => (heroes, heroes).

(** [this.heroesSignal.set(v)] *)
Definition heroesSignal_set (v : list Hero) : Signal unit := fun _ => (tt, v).

(** [this.heroesSignal.update(f)] *)
Definition heroesSignal_update (f : list Hero -> list Hero) : Signal unit :=
  fun heroes => (tt, f heroes).

Declare Scope signal_scope.
Delimit Scope signal_scope with signal.
Notation "x <- m ;; k" := (bind m (fun x => k))
  (at level 61, m at next level, right associativity) : signal_scope.
Notation "m ;; k" := (bind m (fun _ => k))
  (at level 61, right associativity) : signal_scope.
Local Open Scope signal_scope.

Definition result {A} (m : Signal A) (heroes : list Hero) : A := fst (m heroes).
Definition after {A} (m : Signal A) (heroes : list Hero) : list Hero := snd (m heroes).

(* ================================================================== *)
(** ** Array helpers *)

(** [a.findIndex(p)], with [None] for -1. *)
Fixpoint findIndex {A} (p : A -> bool) (a : list A) : option nat :=
  match a with
  | [] => None
  | x :: a' => if p x then Some 0 else option_map S (findIndex p a')
  end.

(** [a.filter(p)] for a callback that may throw: the first element on which
    [p] throws ends the call. *)
Fixpoint filterThrowing {A} (p : A -> Completion bool) (a : list A)
  : Completion (list A) :=
  match a with
  | [] => normal []
  | x :: a' =>
      match p x with
      | throwTypeError => throwTypeError
      | normal keep =>
          match filterThrowing p a' with
          | throwTypeError => throwTypeError
          | normal kept => normal (if keep then x :: kept else kept)
          end
      end
  end.

(* ================================================================== *)
(** ** The service (hero.service.ts) *)

(** What the host returns to one [create] call, in the order it is asked. *)
Record Host : Type := mkHost
  { date_now : Z;          (* Date.now() in generateId *)
    random36 : string;     (* Math.random().toString(36) in generateId *)
    new_date : Z }.        (* new Date() *)

Definition seed : list Hero :=
  [ {| id := VString "1"; name := VString "Superman";
       description := VString "Man of Steel";
       createdAt := VDate (JsDate.ofYMD 2024 1 1); others := [] |};
    {| id := VString "2"; name := VString "Spiderman";
       description := VString "Your friendly neighborhood Spider-Man";
       createdAt := VDate (JsDate.ofYMD 2024 1 2); others := [] |};
    {| id := VString "3"; name := VString "Batman";
       description := VString "The Dark Knight";
       createdAt := VDate (JsDate.ofYMD 2024 1 3); others := [] |} ].

(** The value [heroesSignal] is constructed with. *)
Definition initial : list Hero :=
  [ {| id := VString "1"; name := VString "Superman";
       description := VString "Man of Steel";
       createdAt := VDate (JsDate.ofYMD 2024 1 1); others := [] |};
    {| id := VString "2"; name := VString "Spiderman";
       description := VString "Your friendly neighborhood Spider-Man";
       createdAt := VDate (JsDate.ofYMD 2024 1 2); others := [] |};
    {| id := VString "3"; name := VString "Batman";
       description := VString "The Dark Knight";
       createdAt := VDate (JsDate.ofYMD 2024 1 3); others := [] |} ].

Definition notFound (i : string) : string := ("Hero with id " ++ i ++ " not found")%string.

Definition getAll : Signal (Observable (list Hero)) :=
  heroes <- heroesSignal ;;
  ret (of_ heroes).

Definition getById (i : string) : Signal (Observable (option Hero)) :=
  heroes <- heroesSignal ;;
  let hero := find (fun h => strictEquals (id h) i) heroes in
  ret (of_ hero).

(** [hero.name.toLowerCase().includes(normalizedTerm)]: a name that is no
    string has no [toLowerCase] to call. *)
Definition nameIncludes (normalizedTerm : string) (hero : Hero) : Completion bool :=
  match name hero with
  | VString n => normal (JsString.includes (JsString.toLowerCase n) normalizedTerm)
  | _ => throwTypeError
  end.

Definition searchByName (term : string)
  : Signal (Completion (Observable (list Hero))) :=
  let normalizedTerm := JsString.trim (JsString.toLowerCase term) in
  if JsString.falsy normalizedTerm then
    all <- getAll ;;
    ret (normal all)
  else
    heroes <- heroesSignal ;;
    match filterThrowing (nameIncludes normalizedTerm) heroes with
    | throwTypeError => ret throwTypeError
    | normal filtered => ret (normal (of_ filtered))
    end.

Definition generateId (host : Host) : string :=
  (JsString.ofInt (date_now host) ++ "-" ++ JsString.slice 2 11 (random36 host))%string.

Definition create (host : Host) (dto : CreateHeroDto) : Signal (Observable Hero) :=
  let newHero :=
    {| id := VString (generateId host);
       name := VString (c_name dto);
       description := ofOptional (c_description dto);
       createdAt := VDate (new_date host);
       others := [] |} in
  heroesSignal_update (fun heroes => heroes ++ [newHero]) ;;
  ret (of_ newHero).

(** [findIndex] only returns positions inside the array (lemma
    [update_index_in_range]), so the last branch is never taken. *)
Definition update (i : string) (dto : UpdateHeroDto) : Signal (Observable Hero) :=
  currentHeroes <- heroesSignal ;;
  match findIndex (fun h => strictEquals (id h) i) currentHeroes with
  | None => ret (throwError (notFound i))
  | Some index =>
      match nth_error currentHeroes index with
      | Some current =>
          let updatedHero := spread current dto in
          let updatedHeroes :=
            firstn index currentHeroes ++ [updatedHero]
              ++ skipn (index + 1) currentHeroes in
          heroesSignal_set updatedHeroes ;;
          ret (of_ updatedHero)
      | None => ret (throwError "index out of range")
      end
  end.

Definition delete (i : string) : Signal (Observable unit) :=
  currentHeroes <- heroesSignal ;;
  let exists_ := existsb (fun h => strictEquals (id h) i) currentHeroes in
  if negb exists_ then ret (throwError (notFound i))
  else
    heroesSignal_update
      (fun heroes => filter (fun h => negb (strictEquals (id h) i)) heroes) ;;
    ret (of_ tt).

Definition resetToInitialState : Signal unit :=
  heroesSignal_set seed.

(* ================================================================== *)
(** ** The store as a transition system *)

Inductive Op : Type :=
| OpGetAll
| OpGetById (i : string)
| OpSearchByName (term : string)
| OpCreate (host : Host) (dto : CreateHeroDto)
| OpUpdate (i : string) (dto : UpdateHeroDto)
| OpDelete (i : string)
| OpReset.

(** The collection after one call. *)
Definition step (op : Op) (heroes : list Hero) : list Hero :=
  match op with
  | OpGetAll => after getAll heroes
  | OpGetById i => after (getById i) heroes
  | OpSearchByName term => after (searchByName term) heroes
  | OpCreate host dto => after (create host dto) heroes
  | OpUpdate i dto => after (update i dto) heroes
  | OpDelete i => after (delete i) heroes
  | OpReset => after resetToInitialState heroes
  end.

Definition run (ops : list Op) (heroes : list Hero) : list Hero :=
  fold_left (fun s op => step op s) ops heroes.

(** States the store can be in after calls that all satisfy [allowed]. *)
Inductive reachableBy (allowed : Op -> Prop) : list Hero -> Prop :=
| reach_initial : reachableBy allowed initial
| reach_step op s :
    reachableBy allowed s -> allowed op -> reachableBy allowed (step op s).

Definition reachable : list Hero -> Prop := reachableBy (fun _ => True).

Definition isMutation (op : Op) : bool :=
  match op with
  | OpCreate _ _ | OpUpdate _ _ | OpDelete _ | OpReset => true
  | OpGetAll | OpGetById _ | OpSearchByName _ => false
  end.

(** A non-empty string. *)
Definition nonEmptyString (v : JsValue) : Prop :=
  exists s, v = VString s /\ s <> "".

(** The calls that give no name but a non-empty string: a [create] whose
    request has a non-empty name, an [update] whose patch has no [name]
    property or has a non-empty string there. *)
Definition namesGiven (op : Op) : Prop :=
  match op with
  | OpCreate _ dto => c_name dto <> ""
  | OpUpdate _ dto => u_name dto = None \/ exists v, u_name dto = Some v /\ nonEmptyString v
  | _ => True
  end.

(** The calls whose [update] patches carry no [id] property. *)
Definition idKept (op : Op) : Prop :=
  match op with
  | OpUpdate _ dto => u_id dto = None
  | _ => True
  end.

Definition ids (heroes : list Hero) : list JsValue := map id heroes.

(** Every name of the collection is a string, as [Hero] declares. *)
Definition namesAreStrings (heroes : list Hero) : Prop :=
  Forall (fun h => exists n, name h = VString n) heroes.

(** The heroes whose name, lower-cased, contains the term. *)
Definition matching (normalizedTerm : string) (heroes : list Hero) : list Hero :=
  filter (fun h =>
            match name h with
            | VString n => JsString.includes (JsString.toLowerCase n) normalizedTerm
            | _ => false
            end) heroes.

(** Two calls of [create] in the same millisecond whose random draws differ
    only after the ninth digit that [slice(2, 11)] keeps. *)
Definition hostA : Host := mkHost 1700000000000 "0.4fzyo82mvyr" 1700000000000.
Definition hostB : Host := mkHost 1700000000000 "0.4fzyo82mvzz" 1700000000000.
Definition flash : CreateHeroDto := mkCreateHeroDto "Flash" (Some "The Fastest Man Alive").
Definition aquaman : CreateHeroDto := mkCreateHeroDto "Aquaman" None.

(** A call during which the clock is set back by a second between
    [Date.now()] and [new Date()]. *)
Definition hostSetBack : Host := mkHost 1700000000000 "0.4fzyo82mvyr" 1699999999000.

Definition twinId : string := "1700000000000-4fzyo82mv".

(** The collection after the two calls, from the initial one. *)
Definition twins : list Hero :=
  run [OpCreate hostA flash; OpCreate hostB aquaman] initial.

(** The patch that has the effect of [first] followed by [second]. *)
Definition mergeField (first second : option JsValue) : option JsValue :=
  match second with
  | Some v => Some v
  | None => first
  end.

Definition mergePatch (first second : UpdateHeroDto) : UpdateHeroDto :=
  {| u_name := mergeField (u_name first) (u_name second);
     u_description := mergeField (u_description first) (u_description second);
     u_id := mergeField (u_id first) (u_id second);
     u_createdAt := mergeField (u_createdAt first) (u_createdAt second);
     u_others := u_others second ++ u_others first |}.

(** The patch [{}]. *)
Definition emptyPatch : UpdateHeroDto := mkUpdateHeroDto None None None None [].

(** Patches written as object literals. *)
Definition patchName (n : string) : UpdateHeroDto :=
  mkUpdateHeroDto (Some (VString n)) None None None [].
Definition patchDescription (d : string) : UpdateHeroDto :=
  mkUpdateHeroDto None (Some (VString d)) None None [].
Definition patchNameUndefined : UpdateHeroDto :=
  mkUpdateHeroDto (Some VUndefined) None None None [].
Definition patchDescriptionUndefined : UpdateHeroDto :=
  mkUpdateHeroDto None (Some VUndefined) None None [].
Definition patchId (j : string) : UpdateHeroDto :=
  mkUpdateHeroDto None None (Some (VString j)) None [].

(** Along the calls [ops] from [heroes], every [create] is given an id that
    no hero of the collection holds at that moment, and no [update] patch
    carries an [id] property. *)
Fixpoint createsFresh (ops : list Op) (heroes : list Hero) : Prop :=
  match ops with
  | [] => True
  | op :: ops' =>
      match op with
      | OpCreate host _ => ~ In (VString (generateId host)) (ids heroes)
      | OpUpdate _ dto => u_id dto = None
      | _ => True
      end /\ createsFresh ops' (step op heroes)
  end.

(** A string that is empty or starts with a code unit [trim] keeps. *)
Definition headKept (s : string) : Prop :=
  match s with
  | EmptyString => True
  | String c _ => JsString.isWhiteSpace c = false
  end.

(** No code unit of the string is the dash ["-"]. *)
Fixpoint dashFree (s : string) : bool :=
  match s with
  | EmptyString => true
  | String c s' => negb (Ascii.eqb c "-") && dashFree s'
  end.

(** The normalized form of a search term. *)
Definition normalize (term : string) : string :=
  JsString.trim (JsString.toLowerCase term).

(* ================================================================== *)
(** ** Facts about the string primitives *)

Module JsStringFacts.
Import JsString.

Lemma prefix_app (t b : string) : prefix t (t ++ b)%string = true.
Proof.
  induction t as [|c t IH]; simpl.
  - destruct b; reflexivity.
  - destruct (ascii_dec c c) as [_|n]; [exact IH | contradiction].
Qed.

Lemma prefix_split (t s : string) :
  prefix t s = true -> exists b, s = (t ++ b)%string.
Proof.
  revert s; induction t as [|c t IH]; intros s H.
  - exists s; reflexivity.
  - destruct s as [|d s]; simpl in H; [discriminate|].
    destruct (ascii_dec c d) as [->|_]; [|discriminate].
    destruct (IH _ H) as [b ->]. exists b; reflexivity.
Qed.

Lemma includes_unfold (s t : string) :
  includes s t =
  prefix t s || match s with EmptyString => false | String _ s' => includes s' t end.
Proof. destruct s; reflexivity. Qed.

Lemma append_assoc (a b c : string) :
  ((a ++ b) ++ c)%string = (a ++ b ++ c)%string.
Proof. induction a as [|x a IH]; simpl; [reflexivity | now rewrite IH]. Qed.

(** [includes] decides [Substring]. *)
Lemma includes_spec (s t : string) :
  includes s t = true <-> Substring t s.
Proof.
  split.
  - induction s as [|c s IH]; rewrite includes_unfold; intros H;
      apply orb_true_iff in H; destruct H as [H|H].
    + destruct (prefix_split _ _ H) as [b ->]. exists "", b; reflexivity.
    + discriminate.
    + destruct (prefix_split _ _ H) as [b ->]. exists "", b; reflexivity.
    + destruct (IH H) as (a & b & ->). exists (String c a), b; reflexivity.
  - intros (a & b & ->). induction a as [|c a IH].
    + rewrite includes_unfold. simpl. now rewrite prefix_app.
    + rewrite includes_unfold. cbn [append]. rewrite IH. apply orb_true_r.
Qed.

Lemma isWhiteSpace_lowerChar (c : ascii) :
  isWhiteSpace (lowerChar c) = isWhiteSpace c.
Proof.
  destruct c as [[] [] [] [] [] [] [] []]; vm_compute; reflexivity.
Qed.

Lemma trimStart_toLowerCase (s : string) :
  trimStart (toLowerCase s) = toLowerCase (trimStart s).
Proof.
  induction s as [|c s IH]; simpl; [reflexivity|].
  rewrite isWhiteSpace_lowerChar.
  destruct (isWhiteSpace c); [exact IH | reflexivity].
Qed.

Lemma trimEnd_toLowerCase (s : string) :
  trimEnd (toLowerCase s) = toLowerCase (trimEnd s).
Proof.
  induction s as [|c s IH]; simpl; [reflexivity|].
  rewrite IH, isWhiteSpace_lowerChar.
  destruct (trimEnd s); simpl; [destruct (isWhiteSpace c)|]; reflexivity.
Qed.

(** Lower-casing and trimming commute. *)
Lemma trim_toLowerCase (s : string) :
  trim (toLowerCase s) = toLowerCase (trim s).
Proof.
  unfold trim. now rewrite trimStart_toLowerCase, trimEnd_toLowerCase.
Qed.

Lemma falsy_spec (s : string) : falsy s = true <-> s = "".
Proof. destruct s; simpl; split; congruence. Qed.

Lemma append_nonempty_r (a b : string) : b <> "" -> (a ++ b)%string <> "".
Proof.
  intros Hb H. destruct a; simpl in H; [contradiction | discriminate].
Qed.

End JsStringFacts.

(* ================================================================== *)
(** ** More facts about the string primitives *)

Module JsStringLaws.
Import JsString JsStringFacts.

Lemma lowerChar_idem (c : ascii) : lowerChar (lowerChar c) = lowerChar c.
Proof.
  destruct c as [[] [] [] [] [] [] [] []]; vm_compute; reflexivity.
Qed.

Lemma toLowerCase_idem (s : string) :
  toLowerCase (toLowerCase s) = toLowerCase s.
Proof.
  induction s as [|c s IH]; simpl; [reflexivity|].
  now rewrite lowerChar_idem, IH.
Qed.

Lemma toLowerCase_app (a b : string) :
  toLowerCase (a ++ b)%string = (toLowerCase a ++ toLowerCase b)%string.
Proof. induction a as [|c a IH]; simpl; [reflexivity | now rewrite IH]. Qed.

Lemma trimStart_headKept (s : string) : headKept (trimStart s).
Proof.
  induction s as [|c s IH]; simpl; [exact I|].
  destruct (isWhiteSpace c) eqn:E; [exact IH | exact E].
Qed.

Lemma trimStart_of_headKept (s : string) : headKept s -> trimStart s = s.
Proof. destruct s as [|c s]; simpl; [reflexivity | now intros ->]. Qed.

Lemma trimEnd_headKept (s : string) : headKept s -> headKept (trimEnd s).
Proof.
  destruct s as [|c s]; simpl; [trivial|]. intros E.
  destruct (trimEnd s); [rewrite E|]; exact E.
Qed.

Lemma trimEnd_idem (s : string) : trimEnd (trimEnd s) = trimEnd s.
Proof.
  induction s as [|c s IH]; simpl; [reflexivity|].
  destruct (trimEnd s) as [|d r] eqn:E.
  - destruct (isWhiteSpace c) eqn:W; simpl; [reflexivity | now rewrite W].
  - cbn [trimEnd] in *. now rewrite IH.
Qed.

Lemma trim_idem (s : string) : trim (trim s) = trim s.
Proof.
  unfold trim.
  rewrite (trimStart_of_headKept (trimEnd (trimStart s))).
  - apply trimEnd_idem.
  - apply trimEnd_headKept, trimStart_headKept.
Qed.

Lemma trimStart_suffix (s : string) : exists a, s = (a ++ trimStart s)%string.
Proof.
  induction s as [|c s [a IH]]; simpl; [now exists ""|].
  destruct (isWhiteSpace c).
  - exists (String c a). simpl. now rewrite <- IH.
  - now exists "".
Qed.

Lemma append_empty_r (s : string) : (s ++ "")%string = s.
Proof. induction s as [|c s IH]; simpl; [reflexivity | now rewrite IH]. Qed.

Lemma trimEnd_prefix (s : string) : exists b, s = (trimEnd s ++ b)%string.
Proof.
  induction s as [|c s [b IH]]; simpl; [now exists ""|].
  destruct (trimEnd s) as [|d r] eqn:E.
  - simpl in IH. subst b. destruct (isWhiteSpace c).
    + now exists (String c s).
    + now exists s.
  - exists b. rewrite IH at 1. reflexivity.
Qed.

Lemma Substring_refl (s : string) : Substring s s.
Proof. exists "", "". simpl. now rewrite append_empty_r. Qed.

Lemma Substring_trans (a b c : string) :
  Substring a b -> Substring b c -> Substring a c.
Proof.
  intros (x & y & ->) (u & v & ->).
  exists (u ++ x)%string, (y ++ v)%string.
  now rewrite !append_assoc.
Qed.

Lemma Substring_empty (s : string) : Substring s "" -> s = "".
Proof.
  intros (a & b & E). destruct a; simpl in E; [|discriminate].
  destruct s; [reflexivity | discriminate].
Qed.

Lemma trim_Substring (s : string) : Substring (trim s) s.
Proof.
  unfold trim. destruct (trimStart_suffix s) as [a Ha].
  destruct (trimEnd_prefix (trimStart s)) as [b Hb].
  exists a, b. now rewrite <- Hb.
Qed.

Lemma string_length_app (a b : string) :
  String.length (a ++ b) = String.length a + String.length b.
Proof. induction a as [|c a IH]; simpl; [reflexivity | now rewrite IH]. Qed.

Lemma append_cancel_l (a x y : string) :
  (a ++ x)%string = (a ++ y)%string -> x = y.
Proof. induction a as [|c a IH]; simpl; [trivial|]. intros H; injection H; auto. Qed.

Lemma append_cancel_r (x y t : string) :
  (x ++ t)%string = (y ++ t)%string -> x = y.
Proof.
  revert y; induction x as [|c x IH]; intros [|d y] H; simpl in H.
  - reflexivity.
  - apply (f_equal String.length) in H. simpl in H. rewrite string_length_app in H. lia.
  - apply (f_equal String.length) in H. simpl in H. rewrite string_length_app in H. lia.
  - injection H as -> H. f_equal. now apply IH.
Qed.

End JsStringLaws.

(* ================================================================== *)
(** ** Facts about the array helpers *)

Section ArrayFacts.

Context {A : Type}.
Variable p : A -> bool.

Lemma findIndex_None (a : list A) :
  findIndex p a = None <-> (forall x, In x a -> p x = false).
Proof.
  induction a as [|x a IH]; simpl.
  - split; [intros _ y [] | reflexivity].
  - destruct (p x) eqn:Px.
    + split; [discriminate|]. intros H. rewrite (H x) in Px by now left.
      discriminate.
    + destruct (findIndex p a) as [n|]; simpl.
      * split; [discriminate|]. intros H.
        assert (Some n = None) as E by (apply IH; intros y Hy; apply H; now right).
        discriminate.
      * split; [|reflexivity]. intros _ y [<-|Hy]; [exact Px|].
        now apply (proj1 IH).
Qed.

(** A found index is the position of the first element satisfying [p]. *)
Lemma findIndex_Some (a : list A) (n : nat) :
  findIndex p a = Some n ->
  exists pre x post,
    a = pre ++ x :: post /\ List.length pre = n /\ p x = true /\
    (forall y, In y pre -> p y = false).
Proof.
  revert n; induction a as [|x a IH]; simpl; intros n H; [discriminate|].
  destruct (p x) eqn:Px.
  - injection H as <-. exists [], x, a. repeat split; auto. intros y [].
  - destruct (findIndex p a) as [m|]; simpl in H; [|discriminate].
    injection H as <-.
    destruct (IH m eq_refl) as (pre & y & post & -> & <- & Py & Hpre).
    exists (x :: pre), y, post. repeat split; auto.
    intros z [<-|Hz]; auto.
Qed.

(** The first element satisfying [p] is the one [findIndex] finds. *)
Lemma findIndex_first (pre post : list A) (x : A) :
  p x = true -> (forall y, In y pre -> p y = false) ->
  findIndex p (pre ++ x :: post) = Some (List.length pre).
Proof.
  intros Px. induction pre as [|y pre IH]; simpl; intros Hpre.
  - now rewrite Px.
  - rewrite (Hpre y) by now left. rewrite IH; [reflexivity|].
    intros z Hz; apply Hpre; now right.
Qed.

Lemma findIndex_nth_error (a : list A) (n : nat) :
  findIndex p a = Some n -> exists x, nth_error a n = Some x /\ p x = true.
Proof.
  intros H. destruct (findIndex_Some _ _ H) as (pre & x & post & -> & <- & Px & _).
  exists x. split; [|exact Px].
  rewrite nth_error_app2 by lia. now rewrite Nat.sub_diag.
Qed.

Lemma find_first (pre post : list A) (x : A) :
  p x = true -> (forall y, In y pre -> p y = false) ->
  find p (pre ++ x :: post) = Some x.
Proof.
  intros Px. induction pre as [|y pre IH]; simpl; intros Hpre.
  - now rewrite Px.
  - rewrite (Hpre y) by now left. apply IH. intros z Hz; apply Hpre; now right.
Qed.

Lemma find_none_iff (a : list A) :
  find p a = None <-> (forall x, In x a -> p x = false).
Proof.
  split; [apply find_none|].
  induction a as [|x a IH]; simpl; intros H; [reflexivity|].
  rewrite (H x) by now left. apply IH. intros y Hy; apply H; now right.
Qed.

Lemma filter_all (a : list A) :
  (forall x, In x a -> p x = true) -> filter p a = a.
Proof.
  induction a as [|x a IH]; simpl; intros H; [reflexivity|].
  rewrite (H x) by now left. f_equal. apply IH. intros y Hy; apply H; now right.
Qed.

End ArrayFacts.

Lemma nth_error_middle {A} (pre post : list A) (x : A) :
  nth_error (pre ++ x :: post) (List.length pre) = Some x.
Proof. rewrite nth_error_app2 by lia. now rewrite Nat.sub_diag. Qed.

Lemma firstn_middle {A} (pre post : list A) (x : A) :
  firstn (List.length pre) (pre ++ x :: post) = pre.
Proof.
  rewrite firstn_app, Nat.sub_diag, firstn_all. simpl. apply app_nil_r.
Qed.

Lemma skipn_middle {A} (pre post : list A) (x : A) :
  skipn (List.length pre + 1) (pre ++ x :: post) = post.
Proof.
  rewrite skipn_app. rewrite skipn_all2 by lia.
  replace (List.length pre + 1 - List.length pre) with 1 by lia. reflexivity.
Qed.

Lemma nth_error_replace_other {A} (pre post : list A) (x y : A) (k : nat) :
  k <> List.length pre ->
  nth_error (pre ++ y :: post) k = nth_error (pre ++ x :: post) k.
Proof.
  intros Hk. destruct (Nat.lt_ge_cases k (List.length pre)) as [Hlt|Hge].
  - now rewrite !nth_error_app1 by assumption.
  - rewrite !nth_error_app2 by assumption.
    destruct (k - List.length pre) as [|j] eqn:E; [lia | reflexivity].
Qed.


(* ================================================================== *)
(** ** Facts about the service *)

Lemma JsValue_eq_dec (v w : JsValue) : {v = w} + {v <> w}.
Proof.
  decide equality; [apply bool_dec | apply Z.eq_dec | apply string_dec | apply Z.eq_dec].
Qed.

Lemma strictEquals_spec (v : JsValue) (i : string) :
  strictEquals v i = true <-> v = VString i.
Proof.
  destruct v; simpl; split; try discriminate.
  - intros H. apply String.eqb_eq in H. now subst.
  - intros H. injection H as ->. apply String.eqb_refl.
Qed.

Lemma id_test (h : Hero) (i : string) :
  strictEquals (id h) i = true <-> id h = VString i.
Proof. apply strictEquals_spec. Qed.

Lemma id_test_false (h : Hero) (i : string) :
  strictEquals (id h) i = false <-> id h <> VString i.
Proof.
  rewrite <- id_test. destruct (strictEquals (id h) i); split; congruence.
Qed.

Lemma absent_tests (s : list Hero) (i : string) :
  ~ In (VString i) (ids s) <-> (forall h, In h s -> strictEquals (id h) i = false).
Proof.
  unfold ids. split.
  - intros H h Hh. apply id_test_false. intros E. apply H.
    rewrite <- E. now apply in_map.
  - intros H Hin. apply in_map_iff in Hin as (h & E & Hh).
    apply H in Hh. apply id_test_false in Hh. contradiction.
Qed.

(** A present id splits the collection at its first holder. *)
Lemma present_split (s : list Hero) (i : string) :
  In (VString i) (ids s) ->
  exists pre old post,
    s = pre ++ old :: post /\ id old = VString i /\ ~ In (VString i) (ids pre).
Proof.
  intros Hin.
  destruct (findIndex (fun h => strictEquals (id h) i) s) as [n|] eqn:F.
  - destruct (findIndex_Some _ _ _ F) as (pre & old & post & -> & _ & Hold & Hpre).
    exists pre, old, post. repeat split; [now apply id_test | now apply absent_tests].
  - exfalso. revert Hin. apply absent_tests. now apply findIndex_None.
Qed.

Lemma update_found (pre post : list Hero) (old : Hero) (i : string)
      (dto : UpdateHeroDto) :
  id old = VString i ->
  ~ In (VString i) (ids pre) ->
  update i dto (pre ++ old :: post) =
    (of_ (spread old dto), pre ++ spread old dto :: post).
Proof.
  intros Hold Hpre. unfold update, bind, heroesSignal.
  rewrite (findIndex_first (fun h => strictEquals (id h) i) pre post old);
    [| now apply id_test | now apply absent_tests].
  rewrite nth_error_middle. unfold heroesSignal_set, ret.
  now rewrite firstn_middle, skipn_middle.
Qed.

Lemma update_missing (s : list Hero) (i : string) (dto : UpdateHeroDto) :
  ~ In (VString i) (ids s) -> update i dto s = (throwError (notFound i), s).
Proof.
  intros H. unfold update, bind, heroesSignal.
  replace (findIndex (fun h => strictEquals (id h) i) s) with (@None nat);
    [reflexivity|].
  symmetry. apply findIndex_None. now apply absent_tests.
Qed.

(** The branch of [update] for an index outside the array is dead. *)
Lemma update_index_in_range (s : list Hero) (i : string) (dto : UpdateHeroDto) :
  result (update i dto) s <> throwError "index out of range".
Proof.
  unfold result, update, bind, heroesSignal.
  destruct (findIndex (fun h => strictEquals (id h) i) s) as [n|] eqn:F.
  - destruct (findIndex_nth_error _ _ _ F) as (x & -> & _). discriminate.
  - discriminate.
Qed.

Lemma existsb_present (s : list Hero) (i : string) :
  existsb (fun h => strictEquals (id h) i) s = true <-> In (VString i) (ids s).
Proof.
  rewrite existsb_exists. unfold ids. rewrite in_map_iff.
  split; intros (h & H1 & H2); exists h.
  - split; [now apply id_test | assumption].
  - split; [assumption | now apply id_test].
Qed.

Lemma delete_found (s : list Hero) (i : string) :
  In (VString i) (ids s) ->
  delete i s = (of_ tt, filter (fun h => negb (strictEquals (id h) i)) s).
Proof.
  intros H. apply existsb_present in H.
  unfold delete, bind, heroesSignal. now rewrite H.
Qed.

Lemma delete_missing (s : list Hero) (i : string) :
  ~ In (VString i) (ids s) -> delete i s = (throwError (notFound i), s).
Proof.
  intros H. unfold delete, bind, heroesSignal.
  destruct (existsb (fun h => strictEquals (id h) i) s) eqn:E; [|reflexivity].
  apply existsb_present in E. contradiction.
Qed.

Lemma present_dec (s : list Hero) (i : string) :
  {In (VString i) (ids s)} + {~ In (VString i) (ids s)}.
Proof. apply in_dec, JsValue_eq_dec. Qed.

Lemma notFound_mentions (i : string) :
  JsString.Substring "not found" (notFound i) /\ JsString.Substring i (notFound i).
Proof.
  unfold notFound. split.
  - exists ("Hero with id " ++ i ++ " ")%string, "".
    rewrite !JsStringFacts.append_assoc. reflexivity.
  - exists "Hero with id ", " not found". reflexivity.
Qed.

(** What [update] does, in both cases. *)
Lemma after_update (s : list Hero) (i : string) (dto : UpdateHeroDto) :
  (~ In (VString i) (ids s) /\ update i dto s = (throwError (notFound i), s)) \/
  (exists pre old post,
      s = pre ++ old :: post /\ id old = VString i /\ ~ In (VString i) (ids pre) /\
      update i dto s = (of_ (spread old dto), pre ++ spread old dto :: post)).
Proof.
  destruct (present_dec s i) as [Hin|Hout].
  - right. destruct (present_split s i Hin) as (pre & old & post & -> & Hold & Hpre).
    exists pre, old, post. repeat split; try assumption. now apply update_found.
  - left. split; [assumption | now apply update_missing].
Qed.

(* ================================================================== *)
(** ** update *)

(** C1. For every collection and every id present in it, [update] returns the
    existing record (the first one holding the id) with every property that
    is present in the patch overwritten by the value the patch has there, and
    every property that is absent from the patch kept, [id] and [createdAt]
    included; the updated record takes the place of the original one, and
    every other record of the collection stays as it was. *)
Theorem update_present_merges (s : list Hero) (i : string) (dto : UpdateHeroDto) :
  In (VString i) (ids s) ->
  exists pre old post,
    s = pre ++ old :: post /\ id old = VString i /\ ~ In (VString i) (ids pre) /\
    result (update i dto) s = of_ (spread old dto) /\
    after (update i dto) s = pre ++ spread old dto :: post /\
    (forall v, u_name dto = Some v -> name (spread old dto) = v) /\
    (forall v, u_description dto = Some v -> description (spread old dto) = v) /\
    (forall v, u_id dto = Some v -> id (spread old dto) = v) /\
    (forall v, u_createdAt dto = Some v -> createdAt (spread old dto) = v) /\
    (u_name dto = None -> name (spread old dto) = name old) /\
    (u_description dto = None -> description (spread old dto) = description old) /\
    (u_id dto = None -> id (spread old dto) = id old) /\
    (u_createdAt dto = None -> createdAt (spread old dto) = createdAt old) /\
    others (spread old dto) = u_others dto ++ others old /\
    List.length (after (update i dto) s) = List.length s /\
    nth_error (after (update i dto) s) (List.length pre) = Some (spread old dto) /\
    (forall k, k <> List.length pre ->
               nth_error (after (update i dto) s) k = nth_error s k).
Proof.
  intros Hin.
  destruct (present_split s i Hin) as (pre & old & post & -> & Hold & Hpre).
  exists pre, old, post.
  unfold result, after. rewrite (update_found pre post old i dto Hold Hpre).
  simpl fst; simpl snd. unfold spread; simpl.
  repeat split; try assumption; try (now intros v ->); try (now intros ->).
  - rewrite !List.length_app. reflexivity.
  - apply nth_error_middle.
  - intros k Hk. now apply nth_error_replace_other.
Qed.

Lemma update_present_merges_witness :
  In (VString "2") (ids initial) /\
  exists pre old post,
    initial = pre ++ old :: post /\
    after (update "2" (patchName "Peter Parker")) initial =
      pre ++ spread old (patchName "Peter Parker") :: post /\
    name (spread old (patchName "Peter Parker")) = VString "Peter Parker" /\
    description (spread old (patchName "Peter Parker")) = description old /\
    id (spread old (patchName "Peter Parker")) = id old /\
    createdAt (spread old (patchName "Peter Parker")) = createdAt old.
Proof.
  assert (H : In (VString "2") (ids initial)) by (simpl; auto).
  split; [exact H|].
  destruct (update_present_merges initial "2" (patchName "Peter Parker") H)
    as (pre & old & post & A & _ & _ & _ & B & N & _ & _ & _ & _ & D & I & C & _).
  exists pre, old, post.
  split; [exact A|]. split; [exact B|].
  split; [exact (N _ eq_refl)|]. split; [exact (D eq_refl)|].
  split; [exact (I eq_refl) | exact (C eq_refl)].
Defined.

(* ================================================================== *)
(** ** Failure of update and delete *)

(** C2. [update] and [delete] fail exactly when no hero holds the id; the
    message of the failure contains "not found" and the id, and the
    collection is the one the call found. *)
Theorem update_delete_fail_iff_absent (s : list Hero) (i : string) (dto : UpdateHeroDto) :
  ((exists m, result (update i dto) s = throwError m) <-> ~ In (VString i) (ids s)) /\
  ((exists m, result (delete i) s = throwError m) <-> ~ In (VString i) (ids s)) /\
  (forall m, result (update i dto) s = throwError m ->
             JsString.Substring "not found" m /\ JsString.Substring i m /\
             after (update i dto) s = s) /\
  (forall m, result (delete i) s = throwError m ->
             JsString.Substring "not found" m /\ JsString.Substring i m /\
             after (delete i) s = s).
Proof.
  unfold result, after.
  destruct (present_dec s i) as [Hin|Hout].
  - destruct (present_split s i Hin) as (pre & old & post & E & Hid & Hpre).
    rewrite (delete_found s i Hin). subst s.
    rewrite (update_found pre post old i dto Hid Hpre). simpl fst; simpl snd.
    split; [|split; [|split]].
    + split; [intros [m Hm]; discriminate | intros; contradiction].
    + split; [intros [m Hm]; discriminate | intros; contradiction].
    + intros m Hm; discriminate.
    + intros m Hm; discriminate.
  - rewrite (update_missing s i dto Hout), (delete_missing s i Hout).
    simpl fst; simpl snd.
    destruct (notFound_mentions i) as [N1 N2].
    split; [|split; [|split]].
    + split; [intros _; assumption | intros _; now eexists].
    + split; [intros _; assumption | intros _; now eexists].
    + intros m Hm; injection Hm as <-; auto.
    + intros m Hm; injection Hm as <-; auto.
Qed.

Lemma update_delete_fail_iff_absent_witness :
  JsString.Substring "nope" "Hero with id nope not found" /\
  after (delete "nope") initial = initial.
Proof.
  destruct (update_delete_fail_iff_absent initial "nope" (patchName "x"))
    as (_ & _ & _ & D).
  destruct (D "Hero with id nope not found" eq_refl) as (_ & A & B).
  split; assumption.
Defined.

(* ================================================================== *)
(** ** searchByName *)

(** The filter of [searchByName] returns the matching heroes when every name
    is a string, and throws otherwise. *)
Lemma filterThrowing_cases (normalizedTerm : string) (s : list Hero) :
  (namesAreStrings s /\
   filterThrowing (nameIncludes normalizedTerm) s = normal (matching normalizedTerm s)) \/
  (~ namesAreStrings s /\
   filterThrowing (nameIncludes normalizedTerm) s = throwTypeError).
Proof.
  unfold namesAreStrings, matching.
  induction s as [|h s IH]; simpl; [left; split; [constructor | reflexivity]|].
  unfold nameIncludes at 1 3.
  destruct (name h) as [| |b|z|n|t] eqn:N;
    try (right; split; [|reflexivity]; intros H; inversion H as [|? ? [m Hm] _];
         subst; rewrite N in Hm; discriminate).
  destruct IH as [[Hs ->]|[Hs ->]].
  - left. split; [constructor; [now exists n | exact Hs]|].
    reflexivity.
  - right. split; [|reflexivity]. intros H. inversion H; subst. contradiction.
Qed.

Lemma matching_spec (normalizedTerm : string) (s : list Hero) (h : Hero) :
  In h (matching normalizedTerm s) <->
  In h s /\
  exists n, name h = VString n /\
            JsString.Substring normalizedTerm (JsString.toLowerCase n).
Proof.
  unfold matching. rewrite filter_In. split.
  - intros [Hh Hm]. split; [exact Hh|].
    destruct (name h) as [| |b|z|n|t]; try discriminate.
    exists n. split; [reflexivity|]. now apply JsStringFacts.includes_spec.
  - intros [Hh (n & -> & Hn)]. split; [exact Hh|].
    now apply JsStringFacts.includes_spec.
Qed.



(* ================================================================== *)
(** ** create *)

Lemma generateId_nonempty (host : Host) : generateId host <> "".
Proof.
  unfold generateId. apply JsStringFacts.append_nonempty_r. discriminate.
Qed.

Lemma twins_reachable : reachable twins.
Proof.
  change twins with (step (OpCreate hostB aquaman) (step (OpCreate hostA flash) initial)).
  repeat (apply reach_step; [|exact I]). apply reach_initial.
Qed.

(** C4, on two inputs.  On the reachable collection left by [create] with
    [hostA], [create] with [hostB] succeeds and returns a hero whose id a
    hero of the collection holds already.  With [hostSetBack], [create]
    returns a hero whose [createdAt] is earlier than the [Date.now()] reading
    the same call has taken. *)
Lemma create_id_not_new :
  reachable (step (OpCreate hostA flash) initial) /\
  (exists h,
      result (create hostB aquaman) (step (OpCreate hostA flash) initial) = of_ h /\
      In (id h) (ids (step (OpCreate hostA flash) initial))) /\
  (exists h t,
      result (create hostSetBack flash) initial = of_ h /\
      createdAt h = VDate t /\ (t < date_now hostSetBack)%Z).
Proof.
  split; [apply reach_step; [apply reach_initial | exact I]|]. split.
  - eexists. split; [reflexivity|]. simpl. auto 6.
  - do 2 eexists. split; [reflexivity|]. split; [reflexivity|]. reflexivity.
Qed.

(** C4. [create] always delivers a hero: its name and description are those
    of the request, its id is the non-empty token made in this call from the
    [Date.now()] reading, a dash and the characters 2 to 10 of the random
    string, its [createdAt] is the [new Date()] reading of this call, and the
    collection afterwards is the old one with exactly this record added at
    the end. *)
Theorem create_appends (s : list Hero) (host : Host) (dto : CreateHeroDto) :
  exists h,
    result (create host dto) s = of_ h /\
    name h = VString (c_name dto) /\
    description h = ofOptional (c_description dto) /\
    id h = VString (JsString.ofInt (date_now host) ++ "-"
                      ++ JsString.slice 2 11 (random36 host))%string /\
    id h <> VString "" /\
    createdAt h = VDate (new_date host) /\
    others h = [] /\
    after (create host dto) s = s ++ [h].
Proof.
  eexists. split; [reflexivity|]. simpl.
  repeat split; try reflexivity.
  intros H. injection H as H. exact (generateId_nonempty host H).
Qed.

(* ================================================================== *)
(** ** Uniqueness of ids *)

Lemma NoDup_twice {A} (x : A) (pre mid post : list A) :
  ~ NoDup (pre ++ x :: mid ++ x :: post).
Proof.
  intros H. apply NoDup_remove_2 in H. apply H.
  rewrite !in_app_iff. right; right; now left.
Qed.

Lemma NoDup_snoc {A} (x : A) (l : list A) :
  NoDup l -> ~ In x l -> NoDup (l ++ [x]).
Proof.
  induction l as [|y l IH]; simpl; intros Hl Hx.
  - constructor; [intros [] | constructor].
  - inversion Hl as [|? ? Hy Hl']; subst. constructor.
    + rewrite in_app_iff. intros [H|[H|[]]]; [contradiction|].
      apply Hx. now left.
    + apply IH; [assumption|]. intros H; apply Hx; now right.
Qed.

Lemma ids_app (a b : list Hero) : ids (a ++ b) = ids a ++ ids b.
Proof. apply map_app. Qed.

(** A patch without an [id] property leaves the ids as they are. *)
Lemma ids_spread (pre post : list Hero) (old : Hero) (dto : UpdateHeroDto) :
  u_id dto = None ->
  ids (pre ++ spread old dto :: post) = ids (pre ++ old :: post).
Proof. intros H. rewrite !ids_app. simpl. now rewrite H. Qed.

Lemma ids_filter_NoDup (f : Hero -> bool) (s : list Hero) :
  NoDup (ids s) -> NoDup (ids (filter f s)).
Proof.
  induction s as [|h s IH]; simpl; intros H; [constructor|].
  inversion H as [|? ? Hh Hs]; subst.
  destruct (f h); simpl; [|now apply IH].
  constructor; [|now apply IH].
  intros Hin. apply Hh. unfold ids in *. apply in_map_iff in Hin as (x & E & Hx).
  apply filter_In in Hx as [Hx _]. rewrite <- E. now apply in_map.
Qed.

Lemma step_query (op : Op) (s : list Hero) :
  isMutation op = false -> step op s = s.
Proof.
  destruct op; simpl; try discriminate; intros _; try reflexivity.
  unfold after, searchByName.
  destruct (JsString.falsy (JsString.trim (JsString.toLowerCase term)));
    [reflexivity|].
  unfold bind, heroesSignal.
  destruct (filterThrowing _ s); reflexivity.
Qed.

Lemma step_update (s : list Hero) (i : string) (dto : UpdateHeroDto) :
  (~ In (VString i) (ids s) /\ step (OpUpdate i dto) s = s) \/
  (exists pre old post,
      s = pre ++ old :: post /\ id old = VString i /\
      step (OpUpdate i dto) s = pre ++ spread old dto :: post).
Proof.
  simpl. unfold after.
  destruct (after_update s i dto) as [[Hout ->]|(pre & old & post & -> & Hold & _ & ->)].
  - left. now split.
  - right. now exists pre, old, post.
Qed.

Lemma step_delete (s : list Hero) (i : string) :
  step (OpDelete i) s = filter (fun h => negb (strictEquals (id h) i)) s.
Proof.
  simpl. unfold after. destruct (present_dec s i) as [Hin|Hout].
  - now rewrite (delete_found s i Hin).
  - rewrite (delete_missing s i Hout). simpl. symmetry. apply filter_all.
    intros h Hh. apply negb_true_iff. now apply (proj1 (absent_tests s i) Hout).
Qed.

(** Every call keeps the ids of the collection pairwise distinct, as long as
    the id a [create] generates is not already in the collection and the
    patch of an [update] carries no [id] property. *)
Lemma step_keeps_ids_distinct (op : Op) (s : list Hero) :
  NoDup (ids s) ->
  (forall host dto, op = OpCreate host dto ->
                    ~ In (VString (generateId host)) (ids s)) ->
  idKept op ->
  NoDup (ids (step op s)).
Proof.
  intros Hs Hfresh Hkept. destruct op;
    try (rewrite step_query by reflexivity; exact Hs).
  - simpl. unfold after. simpl. rewrite ids_app. simpl.
    apply NoDup_snoc; [exact Hs | now apply (Hfresh host dto)].
  - destruct (step_update s i dto) as [[_ ->]|(pre & old & post & -> & _ & ->)];
      [exact Hs | now rewrite ids_spread].
  - rewrite step_delete. now apply ids_filter_NoDup.
  - simpl. unfold after. simpl. repeat constructor; simpl; intuition discriminate.
Qed.

(** C5. [generateId] does not look at the collection: two calls of [create]
    in the same millisecond, with random draws that agree on the nine digits
    kept, get the same id, so a reachable collection holds two heroes with one
    id; and after the first of them is deleted, a later [create] is given the
    id again. *)
Theorem create_reissues_id :
  reachable twins /\
  generateId hostA = twinId /\
  generateId hostB = twinId /\
  ids twins = [VString "1"; VString "2"; VString "3"; VString twinId; VString twinId] /\
  ~ NoDup (ids twins) /\
  run [OpCreate hostA flash; OpDelete twinId] initial = initial /\
  exists h,
    result (create hostB aquaman)
           (run [OpCreate hostA flash; OpDelete twinId] initial) = of_ h /\
    id h = VString twinId.
Proof.
  split; [exact twins_reachable|].
  split; [reflexivity|]. split; [reflexivity|]. split; [reflexivity|].
  split; [exact (NoDup_twice (VString twinId)
                   [VString "1"; VString "2"; VString "3"] [] [])|].
  split; [reflexivity|].
  eexists. split; reflexivity.
Qed.

(* ================================================================== *)
(** ** delete *)

Lemma filter_removes_holder (pre post : list Hero) (h : Hero) (i : string) :
  id h = VString i ->
  ~ In (VString i) (ids pre) -> ~ In (VString i) (ids post) ->
  filter (fun x => negb (strictEquals (id x) i)) (pre ++ h :: post) = pre ++ post.
Proof.
  intros Hh Hpre Hpost. rewrite filter_app. simpl.
  rewrite (proj2 (id_test h i) Hh). simpl.
  rewrite !filter_all; [reflexivity| |];
    intros x Hx; apply negb_true_iff.
  - now apply (proj1 (absent_tests post i) Hpost).
  - now apply (proj1 (absent_tests pre i) Hpre).
Qed.

(** C6, on the collection [twins]: the id is present, [delete] succeeds and
    removes both holders of the id, so the size goes down by two. *)
Lemma delete_removes_every_holder :
  reachable twins /\
  In (VString twinId) (ids twins) /\
  result (delete twinId) twins = of_ tt /\
  S (List.length (after (delete twinId) twins)) <> List.length twins /\
  List.length twins = 5 /\
  List.length (after (delete twinId) twins) = 3.
Proof.
  split; [exact twins_reachable|].
  split; [simpl; auto 6|].
  split; [reflexivity|].
  split; [discriminate|].
  split; reflexivity.
Qed.

(** C6. For every collection with pairwise distinct ids and every id present
    in it, [delete] succeeds with a void result, makes the collection one
    record shorter, removes exactly the record with that id, and keeps the
    other records in their order. *)
Theorem delete_present_removes (s : list Hero) (i : string) :
  NoDup (ids s) ->
  In (VString i) (ids s) ->
  exists pre h post,
    s = pre ++ h :: post /\ id h = VString i /\
    result (delete i) s = of_ tt /\
    after (delete i) s = pre ++ post /\
    S (List.length (after (delete i) s)) = List.length s /\
    ~ In (VString i) (ids (after (delete i) s)).
Proof.
  intros Hnd Hin.
  destruct (present_split s i Hin) as (pre & h & post & E & Hid & Hpre).
  exists pre, h, post. unfold result, after. rewrite (delete_found s i Hin).
  simpl fst; simpl snd. subst s.
  assert (Hrest : ~ In (VString i) (ids (pre ++ post))).
  { rewrite ids_app in *. simpl in Hnd. rewrite Hid in Hnd.
    now apply NoDup_remove_2 in Hnd. }
  assert (Hpost : ~ In (VString i) (ids post)).
  { intros H; apply Hrest. rewrite ids_app, in_app_iff. now right. }
  rewrite (filter_removes_holder pre post h i Hid Hpre Hpost).
  repeat split; try assumption.
  rewrite !List.length_app. simpl. lia.
Qed.

Lemma delete_present_removes_witness :
  NoDup (ids initial) /\ In (VString "1") (ids initial) /\
  exists pre h post,
    initial = pre ++ h :: post /\ after (delete "1") initial = pre ++ post.
Proof.
  assert (Hnd : NoDup (ids initial)).
  { simpl. repeat constructor; simpl; intuition discriminate. }
  assert (Hin : In (VString "1") (ids initial)) by (simpl; auto).
  split; [exact Hnd|]. split; [exact Hin|].
  destruct (delete_present_removes initial "1" Hnd Hin)
    as (pre & h & post & A & _ & _ & B & _).
  exists pre, h, post. split; assumption.
Defined.

(* ================================================================== *)
(** ** getById *)

(** C7, on the collection [twins]: the second holder of the id is in the
    collection, and [getById] of its id returns the first holder. *)
Lemma getById_returns_first_holder :
  reachable twins /\
  exists h first,
    In h twins /\ id h = VString twinId /\ first <> h /\
    result (getById twinId) twins = of_ (Some first) /\
    result (getById twinId) twins <> of_ (Some h).
Proof.
  split; [exact twins_reachable|].
  exists (mkHero (VString twinId) (VString "Aquaman") VUndefined
                 (VDate 1700000000000) []),
         (mkHero (VString twinId) (VString "Flash")
                 (VString "The Fastest Man Alive") (VDate 1700000000000) []).
  split; [simpl; auto 6|].
  split; [reflexivity|].
  split; [discriminate|].
  split; [reflexivity|].
  discriminate.
Qed.

(** C7. In every collection with pairwise distinct ids, [getById] of the id
    of a hero of the collection returns that hero; in every collection,
    [getById] of an id that is not present returns the empty result, and
    [getById] never fails. *)
Theorem getById_finds (s : list Hero) :
  (NoDup (ids s) ->
   forall h i, In h s -> id h = VString i ->
               result (getById i) s = of_ (Some h)) /\
  (forall i, ~ In (VString i) (ids s) -> result (getById i) s = of_ None) /\
  (forall i, exists r, result (getById i) s = of_ r).
Proof.
  unfold result, getById, bind, heroesSignal, ret. simpl.
  split; [|split].
  - intros Hnd h i Hh Hid. f_equal.
    destruct (in_split _ _ Hh) as (pre & post & ->).
    apply find_first; [now apply id_test|].
    rewrite ids_app in Hnd. simpl in Hnd. rewrite Hid in Hnd.
    apply NoDup_remove_2 in Hnd.
    apply absent_tests. intros H; apply Hnd. rewrite in_app_iff. now left.
  - intros i Hi. f_equal. apply find_none_iff. now apply absent_tests.
  - intros i. eexists. reflexivity.
Qed.

Lemma getById_finds_witness :
  NoDup (ids initial) /\
  result (getById "3") initial =
    of_ (Some (mkHero (VString "3") (VString "Batman") (VString "The Dark Knight")
                      (VDate 1704240000000) [])) /\
  result (getById "non-existent") initial = of_ None.
Proof.
  assert (Hnd : NoDup (ids initial)).
  { simpl. repeat constructor; simpl; intuition discriminate. }
  split; [exact Hnd|]. split.
  - apply (proj1 (getById_finds initial) Hnd
             (mkHero (VString "3") (VString "Batman") (VString "The Dark Knight")
                     (VDate 1704240000000) [])).
    + simpl. auto.
    + reflexivity.
  - apply (proj1 (proj2 (getById_finds initial))).
    simpl. intuition discriminate.
Defined.

(* ================================================================== *)
(** ** Names *)

(** C8, on two inputs: [create] stores the request [{ name: '' }] as it is,
    and [update] stores the patch [{ name: undefined }] as it is; each
    reaches a collection holding a hero whose name is no non-empty string. *)
Lemma create_stores_empty_name :
  (reachable (step (OpCreate hostA (mkCreateHeroDto "" None)) initial) /\
   exists h,
     result (create hostA (mkCreateHeroDto "" None)) initial = of_ h /\
     In h (step (OpCreate hostA (mkCreateHeroDto "" None)) initial) /\
     name h = VString "") /\
  (reachable (step (OpUpdate "1" patchNameUndefined) initial) /\
   exists h,
     result (update "1" patchNameUndefined) initial = of_ h /\
     In h (step (OpUpdate "1" patchNameUndefined) initial) /\
     name h = VUndefined).
Proof.
  split; (split; [apply reach_step; [apply reach_initial | exact I]|]);
    eexists; (split; [reflexivity|]); (split; [simpl; auto 6 | reflexivity]).
Qed.

Lemma named_seed : Forall (fun h => nonEmptyString (name h)) seed.
Proof. repeat constructor; eexists; (split; [reflexivity | discriminate]). Qed.

Lemma named_step (op : Op) (s : list Hero) :
  namesGiven op ->
  Forall (fun h => nonEmptyString (name h)) s ->
  Forall (fun h => nonEmptyString (name h)) (step op s).
Proof.
  intros Hop Hs. destruct op; try (rewrite step_query by reflexivity; exact Hs).
  - simpl. unfold after. simpl. apply Forall_app. split; [exact Hs|].
    constructor; [|constructor]. exists (c_name dto). now split.
  - destruct (step_update s i dto) as [[_ ->]|(pre & old & post & -> & _ & ->)];
      [exact Hs|].
    apply Forall_app in Hs as [Hpre Hrest].
    inversion Hrest as [|? ? Hold Hpost]; subst.
    apply Forall_app. split; [exact Hpre|]. constructor; [|exact Hpost].
    simpl in Hop. unfold spread; simpl.
    destruct Hop as [->|(v & -> & Hv)]; [exact Hold | exact Hv].
  - rewrite step_delete. rewrite Forall_forall in *.
    intros h Hh. apply filter_In in Hh as [Hh _]. now apply Hs.
  - exact named_seed.
Qed.

(** C8. [create] stores the name of the request as it is, and [update]
    stores the [name] property of the patch as it is when the patch has one.
    In every state reached by calls whose create requests carry a non-empty
    name and whose update patches carry no [name] property or a non-empty
    string there, the name of every hero of the collection is a non-empty
    string. *)
Theorem names_non_empty_when_given (s : list Hero) :
  reachableBy namesGiven s ->
  Forall (fun h => nonEmptyString (name h)) s /\
  (forall host dto,
      exists h, result (create host dto) s = of_ h /\ name h = VString (c_name dto)) /\
  (forall i dto h v,
      result (update i dto) s = of_ h -> u_name dto = Some v -> name h = v).
Proof.
  intros Hr. split; [|split].
  - induction Hr as [|op s Hr IH Hop]; [exact named_seed | now apply named_step].
  - intros host dto. eexists. split; reflexivity.
  - intros i dto h v. unfold result.
    destruct (after_update s i dto) as [[_ ->]|(pre & old & post & _ & _ & _ & ->)];
      simpl; intros H; [discriminate|].
    injection H as <-. simpl. now intros ->.
Qed.

Lemma names_non_empty_when_given_witness :
  reachableBy namesGiven
    (run [OpCreate hostA flash; OpUpdate "1" (patchName "Clark Kent")] initial) /\
  Forall (fun h => nonEmptyString (name h))
    (run [OpCreate hostA flash; OpUpdate "1" (patchName "Clark Kent")] initial).
Proof.
  assert (Hr : reachableBy namesGiven
                 (run [OpCreate hostA flash; OpUpdate "1" (patchName "Clark Kent")]
                      initial)).
  { change (reachableBy namesGiven
              (step (OpUpdate "1" (patchName "Clark Kent"))
                    (step (OpCreate hostA flash) initial))).
    apply reach_step; [apply reach_step; [apply reach_initial|]|]; simpl.
    - discriminate.
    - right. eexists. split; [reflexivity|]. eexists. split; [reflexivity | discriminate]. }
  split; [exact Hr|].
  exact (proj1 (names_non_empty_when_given _ Hr)).
Defined.

(* ================================================================== *)
(** ** resetToInitialState *)

(** C9. From every state, [resetToInitialState] leaves the collection equal to
    the seed, which is the collection the signal is constructed with: the
    heroes "1", "2" and "3" with their fixed names, descriptions and
    timestamps, in that order. *)
Theorem resetToInitialState_restores_seed (s : list Hero) :
  after resetToInitialState s = seed /\
  seed = initial /\
  seed =
    [ mkHero (VString "1") (VString "Superman") (VString "Man of Steel")
             (VDate 1704067200000) [];
      mkHero (VString "2") (VString "Spiderman")
             (VString "Your friendly neighborhood Spider-Man")
             (VDate 1704153600000) [];
      mkHero (VString "3") (VString "Batman") (VString "The Dark Knight")
             (VDate 1704240000000) [] ].
Proof. repeat split. Qed.

(* ================================================================== *)
(** ** Queries *)

(** C10. [getAll], [getById] and [searchByName] leave the collection as it
    is: a call that changes the collection is a [create], an [update], a
    [delete] or a [resetToInitialState]. *)
Theorem queries_keep_collection (s : list Hero) (i term : string) :
  after getAll s = s /\
  after (getById i) s = s /\
  after (searchByName term) s = s /\
  (forall op, step op s <> s -> isMutation op = true).
Proof.
  split; [reflexivity|]. split; [reflexivity|]. split.
  - exact (step_query (OpSearchByName term) s eq_refl).
  - intros op Hop. destruct (isMutation op) eqn:E; [reflexivity|].
    exfalso. apply Hop. now apply step_query.
Qed.

Lemma queries_keep_collection_witness :
  isMutation (OpDelete "1") = true.
Proof.
  apply (proj2 (proj2 (proj2 (queries_keep_collection initial "1" "man")))).
  simpl. discriminate.
Defined.

(* ================================================================== *)
(** ** Lookups after a mutation *)

Lemma find_app_case {A} (p : A -> bool) (a b : list A) :
  find p (a ++ b) =
  match find p a with Some x => Some x | None => find p b end.
Proof.
  induction a as [|x a IH]; simpl; [reflexivity|].
  destruct (p x); [reflexivity | exact IH].
Qed.

Lemma find_filter {A} (p q : A -> bool) (a : list A) :
  (forall x, p x = true -> q x = true) ->
  find p (filter q a) = find p a.
Proof.
  intros H. induction a as [|x a IH]; simpl; [reflexivity|].
  destruct (p x) eqn:Px.
  - rewrite (H x Px). simpl. now rewrite Px.
  - destruct (q x); simpl; [rewrite Px|]; exact IH.
Qed.

Lemma getById_find (s : list Hero) (i : string) :
  result (getById i) s = of_ (find (fun h => strictEquals (id h) i) s).
Proof. reflexivity. Qed.

Lemma find_absent (s : list Hero) (i : string) :
  find (fun h => strictEquals (id h) i) s = None <-> ~ In (VString i) (ids s).
Proof. rewrite find_none_iff. symmetry. apply absent_tests. Qed.

Lemma other_id_test (i j : string) (h : Hero) :
  j <> i -> strictEquals (id h) j = true -> negb (strictEquals (id h) i) = true.
Proof.
  intros Hji E. apply id_test in E. apply negb_true_iff, id_test_false. congruence.
Qed.

Lemma after_delete (s : list Hero) (i : string) :
  after (delete i) s = filter (fun h => negb (strictEquals (id h) i)) s.
Proof. exact (step_delete s i). Qed.

(** X1. When [update] succeeds and the hero it returns still holds the id,
    which is so whenever the patch has no [id] property, [getById] of the id
    on the collection [update] leaves returns exactly that hero. *)
Theorem update_then_getById (s : list Hero) (i : string) (dto : UpdateHeroDto) (h : Hero) :
  result (update i dto) s = of_ h ->
  (u_id dto = None -> id h = VString i) /\
  (id h = VString i ->
   result (getById i) (after (update i dto) s) = of_ (Some h)).
Proof.
  unfold result at 1, after.
  destruct (after_update s i dto) as [[_ ->]|(pre & old & post & -> & Hold & Hpre & ->)];
    simpl fst; simpl snd; intros H; [discriminate|].
  injection H as <-. split.
  - intros E. simpl. now rewrite E.
  - intros Hid. rewrite getById_find. f_equal.
    apply find_first; [now apply strictEquals_spec | now apply absent_tests].
Qed.

Lemma update_then_getById_witness :
  result (getById "1") (after (update "1" (patchName "Updated Name")) initial) =
    of_ (Some (mkHero (VString "1") (VString "Updated Name") (VString "Man of Steel")
                      (VDate 1704067200000) [])).
Proof.
  apply (proj2 (update_then_getById initial "1" (patchName "Updated Name") _ eq_refl)).
  reflexivity.
Defined.

(** X2. After [create], every id the collection already held is looked up as
    before; the generated id, when no hero held it, is looked up to the hero
    [create] returned; any other absent id is still absent. *)
Theorem create_then_getById (s : list Hero) (host : Host) (dto : CreateHeroDto) :
  (forall i, In (VString i) (ids s) ->
     result (getById i) (after (create host dto) s) = result (getById i) s) /\
  (~ In (VString (generateId host)) (ids s) ->
     exists h, result (create host dto) s = of_ h /\
               result (getById (generateId host)) (after (create host dto) s)
                 = of_ (Some h)) /\
  (forall i, ~ In (VString i) (ids s) -> i <> generateId host ->
     result (getById i) (after (create host dto) s) = of_ None).
Proof.
  unfold after. simpl snd. split; [|split].
  - intros i Hi. rewrite !getById_find, find_app_case.
    destruct (find (fun h => strictEquals (id h) i) s) eqn:F; [reflexivity|].
    apply find_absent in F. contradiction.
  - intros Hf. eexists. split; [reflexivity|].
    rewrite getById_find, find_app_case.
    rewrite (proj2 (find_absent s _) Hf). simpl.
    now rewrite String.eqb_refl.
  - intros i Hi Hne. rewrite getById_find, find_app_case.
    rewrite (proj2 (find_absent s _) Hi). simpl.
    replace (generateId host =? i)%string with false; [reflexivity|].
    symmetry. apply String.eqb_neq. congruence.
Qed.

Lemma create_then_getById_witness :
  exists h, result (create hostA flash) initial = of_ h /\
            result (getById (generateId hostA)) (after (create hostA flash) initial)
              = of_ (Some h).
Proof.
  apply (proj1 (proj2 (create_then_getById initial hostA flash))).
  simpl. intuition discriminate.
Defined.

(** X3. After [delete], whether it succeeded or failed, no hero holds the
    id: [getById] returns the empty result, and a second [delete] or an
    [update] of that id fails with the not-found message. *)
Theorem delete_then_absent (s : list Hero) (i : string) (dto : UpdateHeroDto) :
  ~ In (VString i) (ids (after (delete i) s)) /\
  result (getById i) (after (delete i) s) = of_ None /\
  result (delete i) (after (delete i) s) = throwError (notFound i) /\
  result (update i dto) (after (delete i) s) = throwError (notFound i).
Proof.
  assert (H : ~ In (VString i) (ids (after (delete i) s))).
  { rewrite after_delete. apply absent_tests. intros h Hh.
    apply filter_In in Hh as [_ Hh]. now apply negb_true_iff in Hh. }
  split; [exact H|]. split; [|split].
  - rewrite getById_find. f_equal. now apply find_absent.
  - unfold result at 1. now rewrite delete_missing.
  - unfold result at 1. now rewrite update_missing.
Qed.

(** X4. [delete] keeps exactly the heroes that hold another id, and the
    lookup of every other id is as before. *)
Theorem delete_keeps_others (s : list Hero) (i : string) :
  (forall h, In h (after (delete i) s) <-> In h s /\ id h <> VString i) /\
  (forall j, j <> i ->
     result (getById j) (after (delete i) s) = result (getById j) s).
Proof.
  rewrite after_delete. split.
  - intros h. rewrite filter_In, negb_true_iff, id_test_false. reflexivity.
  - intros j Hj. rewrite !getById_find. f_equal.
    apply find_filter. intros h. now apply other_id_test.
Qed.

Lemma delete_keeps_others_witness :
  result (getById "3") (after (delete "2") initial) = result (getById "3") initial.
Proof.
  apply (proj2 (delete_keeps_others initial "2")). discriminate.
Defined.

(** X5. [update], whether it succeeds or fails, keeps the size of the
    collection.  With a patch that has no [id] property it keeps the ids in
    their order, and the lookup of every other id is as before; with a patch
    that has no [createdAt] property it keeps the creation timestamps. *)
Theorem update_keeps_shape (s : list Hero) (i : string) (dto : UpdateHeroDto) :
  List.length (after (update i dto) s) = List.length s /\
  (u_id dto = None -> ids (after (update i dto) s) = ids s) /\
  (u_createdAt dto = None ->
   map createdAt (after (update i dto) s) = map createdAt s) /\
  (u_id dto = None ->
   forall j, j <> i ->
     result (getById j) (after (update i dto) s) = result (getById j) s).
Proof.
  unfold after.
  destruct (after_update s i dto) as [[_ ->]|(pre & old & post & -> & Hold & Hpre & ->)];
    simpl snd; [repeat split|].
  split; [now rewrite !List.length_app|].
  split; [now apply ids_spread|].
  split; [intros E; rewrite !map_app; simpl; now rewrite E|].
  intros E j Hj. rewrite !getById_find, !find_app_case. simpl. rewrite E. simpl.
  rewrite Hold. simpl.
  replace (i =? j)%string with false; [reflexivity|].
  symmetry. apply String.eqb_neq. congruence.
Qed.

Lemma update_keeps_shape_witness :
  result (getById "2") (after (update "1" (patchName "Clark Kent")) initial) =
  result (getById "2") initial.
Proof.
  apply (proj2 (proj2 (proj2 (update_keeps_shape initial "1" (patchName "Clark Kent"))))).
  - reflexivity.
  - discriminate.
Defined.

(* ================================================================== *)
(** ** Ids along a run *)

(** X6. From a collection with pairwise distinct ids, any sequence of calls
    in which every [create] is given an id that no hero holds at that moment
    and no [update] patch has an [id] property leaves the ids pairwise
    distinct. *)
Theorem ids_distinct_along_run (ops : list Op) (s : list Hero) :
  NoDup (ids s) -> createsFresh ops s -> NoDup (ids (run ops s)).
Proof.
  revert s. induction ops as [|op ops IH]; simpl; intros s Hs Hf; [exact Hs|].
  destruct Hf as [Hop Hrest]. apply IH; [|exact Hrest].
  apply step_keeps_ids_distinct; [exact Hs| |].
  - intros host dto ->. exact Hop.
  - destruct op; simpl; trivial.
Qed.

Lemma ids_distinct_along_run_witness :
  NoDup (ids (run [OpCreate hostA flash; OpDelete "1";
                   OpUpdate "2" (patchDescription "Web-slinger")]
                  initial)).
Proof.
  apply ids_distinct_along_run.
  - simpl. repeat constructor; simpl; intuition discriminate.
  - simpl. intuition discriminate.
Defined.

Lemma nonempty_ids_step (op : Op) (s : list Hero) :
  idKept op ->
  Forall (fun h => nonEmptyString (id h)) s ->
  Forall (fun h => nonEmptyString (id h)) (step op s).
Proof.
  intros Hop Hs. destruct op; try (rewrite step_query by reflexivity; exact Hs).
  - simpl. unfold after. simpl. apply Forall_app. split; [exact Hs|].
    constructor; [|constructor]. eexists. split; [reflexivity|].
    apply generateId_nonempty.
  - destruct (step_update s i dto) as [[_ ->]|(pre & old & post & -> & _ & ->)];
      [exact Hs|].
    apply Forall_app in Hs as [Hpre Hrest].
    inversion Hrest as [|? ? Hold Hpost]; subst.
    apply Forall_app. split; [exact Hpre|]. constructor; [|exact Hpost].
    simpl in Hop. simpl. now rewrite Hop.
  - rewrite step_delete. rewrite Forall_forall in *.
    intros h Hh. apply filter_In in Hh as [Hh _]. now apply Hs.
  - repeat constructor; eexists; (split; [reflexivity | discriminate]).
Qed.

(** X7. In every state the store reaches by calls whose [update] patches
    have no [id] property, the id of every hero is a non-empty string. *)
Theorem reachable_ids_nonempty (s : list Hero) :
  reachableBy idKept s -> Forall (fun h => nonEmptyString (id h)) s.
Proof.
  intros Hr. induction Hr as [|op s Hr IH Hop].
  - repeat constructor; eexists; (split; [reflexivity | discriminate]).
  - now apply nonempty_ids_step.
Qed.

Lemma reachable_ids_nonempty_witness :
  Forall (fun h => nonEmptyString (id h)) (step (OpCreate hostA flash) initial).
Proof.
  apply reachable_ids_nonempty.
  apply reach_step; [apply reach_initial | exact I].
Defined.

(* ================================================================== *)
(** ** Agreement of the three lookups *)

(** X8. [getById], [update] and [delete] agree on whether an id is in the
    collection: [getById] returns the empty result exactly when no hero holds
    the id, which is exactly when [update] fails and exactly when [delete]
    fails. *)
Theorem existence_agrees (s : list Hero) (i : string) (dto : UpdateHeroDto) :
  (result (getById i) s = of_ None <-> ~ In (VString i) (ids s)) /\
  (result (getById i) s = of_ None <->
   result (update i dto) s = throwError (notFound i)) /\
  (result (getById i) s = of_ None <->
   result (delete i) s = throwError (notFound i)).
Proof.
  assert (G : result (getById i) s = of_ None <-> ~ In (VString i) (ids s)).
  { rewrite getById_find, <- find_absent. split; [intros H; now injection H | now intros ->]. }
  split; [exact G|]. rewrite G. unfold result.
  destruct (present_dec s i) as [Hin|Hout].
  - rewrite (delete_found s i Hin).
    destruct (present_split s i Hin) as (pre & old & post & -> & Hold & Hpre).
    rewrite (update_found pre post old i dto Hold Hpre). simpl.
    split; (split; [intros; contradiction | discriminate]).
  - rewrite (delete_missing s i Hout), (update_missing s i dto Hout). simpl.
    split; (split; [reflexivity | intros _; exact Hout]).
Qed.

Lemma existence_agrees_witness :
  result (delete "non-existent") initial = throwError (notFound "non-existent").
Proof.
  apply (proj2 (proj2 (existence_agrees initial "non-existent" emptyPatch))).
  reflexivity.
Defined.

(** X9. A hero [getById] returns is the first hero of the collection that
    holds the id. *)
Theorem getById_sound (s : list Hero) (i : string) (h : Hero) :
  result (getById i) s = of_ (Some h) ->
  exists pre post,
    s = pre ++ h :: post /\ id h = VString i /\ ~ In (VString i) (ids pre).
Proof.
  rewrite getById_find. intros H. injection H as F.
  assert (Hin : In (VString i) (ids s)).
  { destruct (present_dec s i) as [Hin|Hout]; [exact Hin|].
    apply find_absent in Hout. congruence. }
  destruct (present_split s i Hin) as (pre & old & post & -> & Hold & Hpre).
  rewrite (find_first (fun x => strictEquals (id x) i) pre post old) in F;
    [| now apply id_test | now apply absent_tests].
  injection F as <-. now exists pre, post.
Qed.

Lemma getById_sound_witness :
  exists pre post,
    twins = pre ++ mkHero (VString twinId) (VString "Flash")
                          (VString "The Fastest Man Alive") (VDate 1700000000000) []
                   :: post /\
    ~ In (VString twinId) (ids pre).
Proof.
  destruct (getById_sound twins twinId
              (mkHero (VString twinId) (VString "Flash")
                      (VString "The Fastest Man Alive") (VDate 1700000000000) [])
              eq_refl) as (pre & post & A & _ & B).
  exists pre, post. split; assumption.
Defined.

(* ================================================================== *)
(** ** Patches *)

Lemma overwrite_merge (first second : option JsValue) (old : JsValue) :
  overwrite second (overwrite first old) = overwrite (mergeField first second) old.
Proof. destruct second; reflexivity. Qed.

Lemma spread_merge (old : Hero) (first second : UpdateHeroDto) :
  spread (spread old first) second = spread old (mergePatch first second).
Proof.
  unfold spread, mergePatch; simpl.
  now rewrite !overwrite_merge, app_assoc.
Qed.

Lemma spread_empty (old : Hero) : spread old emptyPatch = old.
Proof. destruct old; reflexivity. Qed.

Lemma mergeField_same (f : option JsValue) : mergeField f f = f.
Proof. destruct f; reflexivity. Qed.

(** X10. After an update whose patch has no [id] property, a second update
    of the same id has the result and the effect of the single update with
    the merged patch, in which every property present in the second patch
    wins, an [undefined] one included.  Repeating an update whose patch has
    only declared properties changes nothing. *)
Theorem update_composes (s : list Hero) (i : string) (first second : UpdateHeroDto) :
  u_id first = None ->
  update i second (after (update i first) s) = update i (mergePatch first second) s /\
  (u_others first = [] ->
   update i first (after (update i first) s) = update i first s).
Proof.
  intros Hid.
  assert (K : forall b,
             update i b (after (update i first) s) = update i (mergePatch first b) s).
  { intros b. unfold after.
    destruct (after_update s i first)
      as [[Hout ->]|(pre & old & post & -> & Hold & Hpre & ->)]; simpl snd.
    - now rewrite !update_missing.
    - rewrite (update_found pre post old i (mergePatch first b) Hold Hpre).
      rewrite (update_found pre post (spread old first) i b); [| |exact Hpre].
      + now rewrite spread_merge.
      + simpl. now rewrite Hid. }
  split; [apply K|]. intros Ho. rewrite K. f_equal.
  unfold mergePatch. rewrite !mergeField_same.
  destruct first as [n d j c o]; simpl in *. now subst o.
Qed.

Lemma update_composes_witness :
  update "1" patchDescriptionUndefined (after (update "1" (patchDescription "Kal-El")) initial)
  = update "1" patchDescriptionUndefined initial.
Proof.
  exact (proj1 (update_composes initial "1" (patchDescription "Kal-El")
                  patchDescriptionUndefined eq_refl)).
Defined.

(** X11. [update] with the patch [{}] leaves the collection as it is, and
    when the id is present it returns the hero [getById] returns. *)
Theorem update_empty_patch (s : list Hero) (i : string) :
  after (update i emptyPatch) s = s /\
  (forall h, result (getById i) s = of_ (Some h) ->
             result (update i emptyPatch) s = of_ h).
Proof.
  unfold after, result at 2.
  destruct (after_update s i emptyPatch)
    as [[Hout ->]|(pre & old & post & -> & Hold & Hpre & ->)]; simpl fst; simpl snd.
  - split; [reflexivity|]. intros h H.
    rewrite getById_find, (proj2 (find_absent s i) Hout) in H. discriminate.
  - rewrite spread_empty. split; [reflexivity|]. intros h H.
    rewrite getById_find in H.
    rewrite (find_first (fun x => strictEquals (id x) i) pre post old) in H;
      [| now apply id_test | now apply absent_tests].
    congruence.
Qed.

Lemma update_empty_patch_witness :
  result (update "3" emptyPatch) initial =
    of_ (mkHero (VString "3") (VString "Batman") (VString "The Dark Knight")
                (VDate 1704240000000) []).
Proof.
  apply (proj2 (update_empty_patch initial "3")). reflexivity.
Defined.

(** X19. On a collection with pairwise distinct ids, an [update] of a present
    id whose patch has an [id] property with another string moves the hero to
    that id: [getById] of the old id then returns the empty result, and when
    a hero held the new id already, the ids are no longer distinct. *)
Theorem update_moves_id (s : list Hero) (i j : string) (dto : UpdateHeroDto) :
  NoDup (ids s) ->
  In (VString i) (ids s) ->
  u_id dto = Some (VString j) ->
  j <> i ->
  (exists h, result (update i dto) s = of_ h /\ id h = VString j) /\
  result (getById i) (after (update i dto) s) = of_ None /\
  (In (VString j) (ids s) -> ~ NoDup (ids (after (update i dto) s))).
Proof.
  intros Hnd Hin Hid Hji.
  destruct (present_split s i Hin) as (pre & old & post & -> & Hold & Hpre).
  unfold result at 1, after. rewrite (update_found pre post old i dto Hold Hpre).
  simpl fst; simpl snd.
  assert (Hrest : ~ In (VString i) (ids pre ++ ids post)).
  { rewrite ids_app in Hnd. simpl in Hnd. rewrite Hold in Hnd.
    now apply NoDup_remove_2 in Hnd. }
  assert (Hnew : id (spread old dto) = VString j) by (simpl; now rewrite Hid).
  assert (E : ids (pre ++ spread old dto :: post) = ids pre ++ VString j :: ids post).
  { rewrite ids_app. simpl. now rewrite Hid. }
  split; [eexists; split; [reflexivity | exact Hnew]|]. split.
  - rewrite getById_find. f_equal. apply find_absent.
    rewrite E, in_app_iff. simpl.
    intros [H|[H|H]].
    + apply Hrest. rewrite in_app_iff. now left.
    + injection H as H. contradiction.
    + apply Hrest. rewrite in_app_iff. now right.
  - intros Hj Hnd'. rewrite E in Hnd'. rewrite ids_app in Hj. simpl in Hj.
    rewrite Hold in Hj.
    apply NoDup_remove_2 in Hnd'. apply Hnd'.
    rewrite in_app_iff in *. destruct Hj as [H|[H|H]]; [now left | | now right].
    injection H as H. congruence.
Qed.

Lemma update_moves_id_witness :
  result (getById "1") (after (update "1" (patchId "2")) initial) = of_ None /\
  ~ NoDup (ids (after (update "1" (patchId "2")) initial)).
Proof.
  assert (Hnd : NoDup (ids initial)).
  { simpl. repeat constructor; simpl; intuition discriminate. }
  assert (Hin : In (VString "1") (ids initial)) by (simpl; auto).
  assert (Hne : "2" <> "1") by discriminate.
  destruct (update_moves_id initial "1" "2" (patchId "2") Hnd Hin eq_refl Hne)
    as (_ & A & B).
  split; [exact A|]. apply B. simpl. auto.
Defined.

(* ================================================================== *)
(** ** create and delete *)

Lemma create_new_record (s : list Hero) (host : Host) (dto : CreateHeroDto) :
  exists h, id h = VString (generateId host) /\ after (create host dto) s = s ++ [h].
Proof. eexists. split; [|reflexivity]. reflexivity. Qed.

(** X12. When no hero holds the id [create] generates, deleting that id
    right after the [create] succeeds and gives back the collection as it was
    before the [create]. *)
Theorem create_then_delete (s : list Hero) (host : Host) (dto : CreateHeroDto) :
  ~ In (VString (generateId host)) (ids s) ->
  result (delete (generateId host)) (after (create host dto) s) = of_ tt /\
  after (delete (generateId host)) (after (create host dto) s) = s.
Proof.
  intros Hf.
  destruct (create_new_record s host dto) as (h & Hid & ->).
  rewrite after_delete. unfold result. rewrite delete_found.
  - split; [reflexivity|]. rewrite filter_app. simpl.
    rewrite (proj2 (id_test h _) Hid).
    simpl. rewrite app_nil_r. apply filter_all. intros x Hx. apply negb_true_iff.
    now apply (proj1 (absent_tests s _) Hf).
  - rewrite ids_app, in_app_iff. right. simpl. now left.
Qed.

Lemma create_then_delete_witness :
  after (delete (generateId hostA)) (after (create hostA flash) initial) = initial.
Proof.
  apply (create_then_delete initial hostA flash).
  simpl. intuition discriminate.
Defined.

(** X13. The not-found message determines the id: two failures with the same
    message are about the same id. *)
Theorem notFound_injective (i j : string) : notFound i = notFound j -> i = j.
Proof.
  unfold notFound. intros H.
  apply JsStringLaws.append_cancel_l in H.
  now apply JsStringLaws.append_cancel_r in H.
Qed.

Lemma notFound_injective_witness : "nope" = "nope".
Proof. apply notFound_injective. reflexivity. Defined.

(* ================================================================== *)
(** ** More on searchByName *)

Lemma searchByName_by_normalize (s : list Hero) (t u : string) :
  normalize t = normalize u -> searchByName t s = searchByName u s.
Proof. unfold normalize, searchByName. now intros ->. Qed.

Lemma normalize_idem (t : string) : normalize (normalize t) = normalize t.
Proof.
  unfold normalize.
  now rewrite <- (JsStringFacts.trim_toLowerCase (JsString.toLowerCase t)),
    JsStringLaws.toLowerCase_idem, JsStringLaws.trim_idem.
Qed.

(** The three outcomes of [searchByName]. *)
Lemma searchByName_cases (s : list Hero) (t : string) :
  (normalize t = "" /\ result (searchByName t) s = normal (of_ s)) \/
  (normalize t <> "" /\ namesAreStrings s /\
   result (searchByName t) s = normal (of_ (matching (normalize t) s))) \/
  (normalize t <> "" /\ ~ namesAreStrings s /\
   result (searchByName t) s = throwTypeError).
Proof.
  unfold normalize, searchByName, result.
  destruct (JsString.trim (JsString.toLowerCase t)) as [|c r] eqn:E; simpl.
  - now left.
  - right. unfold bind, heroesSignal.
    destruct (filterThrowing_cases (String c r) s) as [[H ->]|[H ->]].
    + left. split; [discriminate|]. now split.
    + right. split; [discriminate|]. now split.
Qed.

(** X14. [searchByName] does not tell a term from its trimmed form, from its
    lower-cased form or from its normalized form: result and collection
    afterwards are the same. *)
Theorem searchByName_normalizes (s : list Hero) (term : string) :
  searchByName (JsString.trim term) s = searchByName term s /\
  searchByName (JsString.toLowerCase term) s = searchByName term s /\
  searchByName (normalize term) s = searchByName term s.
Proof.
  split; [|split]; apply searchByName_by_normalize.
  - unfold normalize.
    now rewrite <- JsStringFacts.trim_toLowerCase, JsStringLaws.trim_idem.
  - unfold normalize. now rewrite JsStringLaws.toLowerCase_idem.
  - apply normalize_idem.
Qed.

(** X15. On a collection whose names are strings, searching for the name of
    a hero of the collection, as it is stored, finds that hero. *)
Theorem searchByName_finds_own_name (s : list Hero) (h : Hero) (n : string) :
  namesAreStrings s ->
  In h s ->
  name h = VString n ->
  exists r, result (searchByName n) s = normal (of_ r) /\ In h r.
Proof.
  intros Hs Hh Hn.
  destruct (searchByName_cases s n) as [[_ ->]|[(_ & _ & ->)|(_ & H & _)]];
    [eexists; split; [reflexivity | exact Hh] | | contradiction].
  eexists. split; [reflexivity|].
  apply matching_spec. split; [exact Hh|]. exists n. split; [exact Hn|].
  unfold normalize. apply JsStringLaws.trim_Substring.
Qed.

Lemma searchByName_finds_own_name_witness :
  exists r, result (searchByName "Spiderman") initial = normal (of_ r) /\
            In (mkHero (VString "2") (VString "Spiderman")
                       (VString "Your friendly neighborhood Spider-Man")
                       (VDate 1704153600000) []) r.
Proof.
  apply (searchByName_finds_own_name initial
           (mkHero (VString "2") (VString "Spiderman")
                   (VString "Your friendly neighborhood Spider-Man")
                   (VDate 1704153600000) [])).
  - repeat constructor; eexists; reflexivity.
  - simpl. auto.
  - reflexivity.
Defined.

(** X16. On a collection whose names are strings, every hero [searchByName]
    returns is in the collection, and a term whose normalized form contains
    the normalized form of another term finds no hero that the other term
    does not find. *)
Theorem searchByName_refines (s : list Hero) (t1 t2 : string) :
  namesAreStrings s ->
  JsString.Substring (normalize t1) (normalize t2) ->
  exists r1 r2,
    result (searchByName t1) s = normal (of_ r1) /\
    result (searchByName t2) s = normal (of_ r2) /\
    (forall h, In h r2 -> In h r1) /\
    (forall h, In h r1 -> In h s).
Proof.
  intros Hs Hsub.
  destruct (searchByName_cases s t1) as [[E1 ->]|[(N1 & _ & ->)|(_ & H & _)]];
    [| |contradiction];
    (destruct (searchByName_cases s t2) as [[E2 ->]|[(N2 & _ & ->)|(_ & H & _)]];
     [| |contradiction]);
    do 2 eexists; (split; [reflexivity|]); (split; [reflexivity|]).
  - split; auto.
  - split; [|auto]. intros h Hh. now apply matching_spec in Hh.
  - exfalso. rewrite E2 in Hsub. apply N1. now apply JsStringLaws.Substring_empty.
  - split; intros h Hh; apply matching_spec in Hh as [Hh (n & Hn & Hi)]; [|exact Hh].
    apply matching_spec. split; [exact Hh|]. exists n. split; [exact Hn|].
    exact (JsStringLaws.Substring_trans _ _ _ Hsub Hi).
Qed.

Lemma searchByName_refines_witness :
  exists r1 r2,
    result (searchByName "man") initial = normal (of_ r1) /\
    result (searchByName " SuperMan") initial = normal (of_ r2) /\
    (forall h, In h r2 -> In h r1) /\
    (forall h, In h r1 -> In h initial).
Proof.
  apply (searchByName_refines initial "man" " SuperMan").
  - repeat constructor; eexists; reflexivity.
  - exists "super", "". reflexivity.
Defined.

(** X18. [searchByName] throws a [TypeError] instead of returning exactly
    when the normalized term is not empty and some hero of the collection has
    a name that is no string; the collection stays as it is.  After
    [update] with the patch [{ name: undefined }] on a present id, every
    search with such a term throws. *)
Theorem searchByName_throws_iff (s : list Hero) (term : string) :
  (result (searchByName term) s = throwTypeError <->
   normalize term <> "" /\ ~ namesAreStrings s) /\
  after (searchByName term) s = s /\
  (forall i, In (VString i) (ids s) -> normalize term <> "" ->
     result (searchByName term) (after (update i patchNameUndefined) s)
       = throwTypeError).
Proof.
  assert (T : forall s', result (searchByName term) s' = throwTypeError <->
                         normalize term <> "" /\ ~ namesAreStrings s').
  { intros s'.
    destruct (searchByName_cases s' term) as [[E ->]|[(N & H & ->)|(N & H & ->)]].
    - split; [discriminate | intros [N _]; contradiction].
    - split; [discriminate | intros [_ N']; contradiction].
    - split; [now intros _ | reflexivity]. }
  split; [apply T|]. split; [exact (step_query (OpSearchByName term) s eq_refl)|].
  intros i Hin N. apply T. split; [exact N|].
  destruct (present_split s i Hin) as (pre & old & post & -> & Hold & Hpre).
  unfold after. rewrite (update_found pre post old i _ Hold Hpre). simpl snd.
  intros H. apply Forall_app in H as [_ H]. inversion H as [|? ? [n Hn] _]; subst.
  discriminate.
Qed.

Lemma searchByName_throws_iff_witness :
  result (searchByName "man") (after (update "1" patchNameUndefined) initial)
    = throwTypeError.
Proof.
  apply (proj2 (proj2 (searchByName_throws_iff initial "man")) "1").
  - simpl. auto.
  - vm_compute. discriminate.
Defined.

(* ================================================================== *)
(** ** When generated ids coincide *)

Lemma dashFree_digits (u : Decimal.uint) :
  dashFree (NilEmpty.string_of_uint u) = true.
Proof. induction u; simpl; auto. Qed.

Lemma dashFree_ofInt (n : Z) : (0 <= n)%Z -> dashFree (JsString.ofInt n) = true.
Proof.
  unfold JsString.ofInt. destruct n as [|p|p]; simpl; intros H.
  - reflexivity.
  - destruct (Pos.to_uint p); unfold NilZero.string_of_uint;
      [reflexivity | apply dashFree_digits ..].
  - lia.
Qed.

Lemma ofInt_injective (a b : Z) : JsString.ofInt a = JsString.ofInt b -> a = b.
Proof.
  unfold JsString.ofInt. intros H.
  assert (K : forall n, NilZero.int_of_string (NilZero.string_of_int (Z.to_int n))
                        = Some (Z.to_int n)).
  { intros n. apply NilZero.isi; destruct n as [|p|p]; simpl; try discriminate;
      intros E; injection E as E; exact (Unsigned.to_uint_nonnil p E). }
  apply DecimalZ.to_int_inj.
  pose proof (K a) as Ka. rewrite H, K in Ka. now injection Ka.
Qed.

(** A dash-free head is cut off at the first dash. *)
Lemma dash_split (a b x y : string) :
  dashFree a = true -> dashFree b = true ->
  (a ++ "-" ++ x)%string = (b ++ "-" ++ y)%string -> a = b /\ x = y.
Proof.
  revert b. induction a as [|c a IH]; intros [|d b] Ha Hb H; simpl in *.
  - injection H as ->. now split.
  - injection H as <- _. discriminate.
  - injection H as -> _. discriminate.
  - apply andb_true_iff in Ha as [_ Ha]. apply andb_true_iff in Hb as [_ Hb].
    injection H as -> H. destruct (IH b Ha Hb H) as [-> ->]. now split.
Qed.

(** X17. With clock readings that are not negative, two calls are given the
    same id exactly when they read the same millisecond and their random
    strings agree on the characters [slice(2, 11)] keeps. *)
Theorem generateId_collides_iff (h1 h2 : Host) :
  (0 <= date_now h1)%Z -> (0 <= date_now h2)%Z ->
  (generateId h1 = generateId h2 <->
   date_now h1 = date_now h2 /\
   JsString.slice 2 11 (random36 h1) = JsString.slice 2 11 (random36 h2)).
Proof.
  intros H1 H2. unfold generateId. split.
  - intros E.
    destruct (dash_split _ _ _ _ (dashFree_ofInt _ H1) (dashFree_ofInt _ H2) E)
      as [Ea Ex].
    split; [now apply ofInt_injective | exact Ex].
  - intros [-> ->]. reflexivity.
Qed.

Lemma generateId_collides_iff_witness : generateId hostA = generateId hostB.
Proof.
  apply (generateId_collides_iff hostA hostB); simpl; try lia.
  split; reflexivity.
Defined.
